(** * get-to-getting: filter parsing, product lookup and filter URLs

    A shallow embedding of [src/index.tsx] (the revision that defines
    [getAllFilteredProducts] and [buildFilterUrl]) and the properties of
    its filter parser, its product lookup, its URL builder and its three
    search routes.

    Modelling conventions.
    - A JavaScript string is modelled by the sequence of bytes of its
      UTF-8 encoding, as a [string]: this is what SQLite stores and
      compares and what [encodeURIComponent] percent-encodes.  Strings
      that are not well-formed UTF-16 have no image in the model.
    - SQLite's LOWER and LIKE are modelled as SQLite computes them: LOWER
      folds the bytes A to Z, and LIKE reads both texts as C strings of
      UTF-8 characters, so that a text ends at a NUL byte and an
      underscore takes one whole character.
    - A value of type [string | null | undefined] is a [raw]; a value of
      type [string | null] is an [option string] with [None] for [null].
    - The type [Size] of the source is a union of three string literals;
      its values are strings at run time and are modelled as strings,
      [isSize] being the membership test.
    - The in-memory SQLite table is the list of its rows in rowid order,
      with the AUTOINCREMENT counter.
    - A JSX value is a tree ([jsx]); turning it into markup is the
      templating library's work and is not modelled. *)

From Stdlib Require Import Bool List Ascii String NArith ZArith Lia.
From Stdlib Require Import Permutation DecimalZ.
From Stdlib Require Import DecimalString.
Import ListNotations.
Open Scope string_scope.

(** ** JavaScript values *)

(** [string | null | undefined] *)
Inductive raw : Type :=
| Undefined
| Null
| Str (s : string).

(** [v ?? null] *)
Definition nullish_or_null (v : raw) : option string :=
  match v with
  | Str s => Some s
  | Undefined | Null => None
  end.

(** [v ?? ""] for a [string | null] *)
Definition or_empty (v : option string) : string :=
  match v with
  | Some s => s
  | None => ""
  end.

(** ** Filter parser *)

(** The test of [parseFilterInput] on a non-empty [input.size]. *)
Definition isSize (s : string) : bool :=
  (s =? "small") || (s =? "medium") || (s =? "large").

(** The object [{ size, query }] that [parseFilterInput] returns. *)
Module Filter.
Record t : Type := mk {
  size : string;
  query : option string
}.
End Filter.

(** The argument object [{ size?, query? }]. *)
Module Input.
Record t : Type := mk {
  size : raw;
  query : raw
}.
End Input.

Definition parseFilterInput (input : Input.t) : Filter.t :=
  let size := "small" in
  let size :=
    match Input.size input with
    | Str (String _ _ as s) =>            (* if (input.size) *)
        let isValid := (s =? "small") || (s =? "medium") || (s =? "large") in
        if isValid then s else size
    | _ => size
    end in
  let query := nullish_or_null (Input.query input) in
  Filter.mk size query.

(** ** The products table and the prepared statements *)

Module Product.
Record t : Type := mk {
  id : Z;
  title : string;
  size : string
}.
End Product.

(** The table [products]: its rows in rowid order and the value of the
    AUTOINCREMENT sequence. *)
Record Database : Type := mkDatabase {
  rows : list Product.t;
  seq : Z
}.

Definition db_empty : Database := mkDatabase [] 0.

(** [insert.run(title, size)]:
    INSERT INTO products (title, size) VALUES (?, ?) *)
Definition insert_run (db : Database) (title size : string) : Database :=
  let id := (seq db + 1)%Z in
  mkDatabase (rows db ++ [Product.mk id title size]) id.

(** SQLite's LOWER: only the letters A to Z are folded. *)
Definition to_lower (c : ascii) : ascii :=
  let n := N_of_ascii c in
  if ((65 <=? n) && (n <=? 90))%N then ascii_of_N (n + 32) else c.

Fixpoint lower (s : string) : string :=
  match s with
  | "" => ""
  | String c s' => String (to_lower c) (lower s')
  end.

(** *** The characters that LIKE reads

    LIKE reads its two texts as C strings of UTF-8: a text ends at its
    first NUL byte, and a character is read as [sqlite3Utf8Read] reads
    it.  A byte below 0xc0 is a character by itself.  A byte from 0xc0
    on starts with the value of the table [sqlite3Utf8Trans1] and takes
    in every continuation byte that follows, six bits each in a 32-bit
    word; a result below 0x80, a surrogate, 0xfffe or 0xffff is read as
    0xfffd. *)

(** [sqlite3Utf8Trans1[n - 0xc0]], for a byte from 0xc0 on. *)
Definition utf8_lead (n : N) : N :=
  (if n <? 0xe0 then N.land n 0x1f
   else if n <? 0xf0 then N.land n 0x0f
   else if n <? 0xf8 then N.land n 0x07
   else if n <? 0xfc then N.land n 0x03
   else if n <? 0xfe then N.land n 0x01
   else 0)%N.

(** The byte is a continuation byte: [(z[0] & 0xc0) == 0x80]. *)
Definition is_continuation (n : N) : bool :=
  (N.land n 0xc0 =? 0x80)%N.

(** [c = (c << 6) + (0x3f & z[0])] on an unsigned 32-bit [c]. *)
Definition utf8_push (c n : N) : N :=
  (N.land (N.shiftl c 6) 0xffffffff + N.land n 0x3f)%N.

(** [if (c < 0x80 || (c & 0xFFFFF800) == 0xD800
         || (c & 0xFFFFFFFE) == 0xFFFE) c = 0xFFFD] *)
Definition utf8_fix (c : N) : N :=
  (if (c <? 0x80) || (N.land c 0xfffff800 =? 0xd800)
      || (N.land c 0xfffffffe =? 0xfffe)
   then 0xfffd else c)%N.

(** The character that is being read, if one is, is complete. *)
Definition utf8_flush (pending : option N) : list N :=
  match pending with
  | Some c => [utf8_fix c]
  | None => []
  end.

(** The characters of a text up to its first NUL byte, [pending] being
    the value of a character whose continuation bytes are being read. *)
Fixpoint sql_chars_from (pending : option N) (s : string) : list N :=
  match s with
  | "" => utf8_flush pending
  | String b s' =>
      let n := N_of_ascii b in
      match pending, is_continuation n with
      | Some c, true => sql_chars_from (Some (utf8_push c n)) s'
      | _, _ =>
          (utf8_flush pending
           ++ if (n =? 0)%N then []
              else if (0xc0 <=? n)%N then sql_chars_from (Some (utf8_lead n)) s'
              else n :: sql_chars_from None s')%list
      end
  end.

Definition sql_chars (s : string) : list N :=
  sql_chars_from None s.

(** [sqlite3Tolower] on a character below 0x80. *)
Definition char_lower (c : N) : N :=
  (if (65 <=? c) && (c <=? 90) then c + 32 else c)%N.

(** Two characters are the same for LIKE: they are equal, or both are
    below 0x80 and equal up to case. *)
Definition char_like (c d : N) : bool :=
  ((c =? d)
   || ((c <? 0x80) && (d <? 0x80) && (char_lower c =? char_lower d)))%N.

(** [patternCompare] for LIKE without an ESCAPE clause, on characters,
    pattern first: a percent sign (37) matches any run of characters,
    the empty one too, an underscore (95) matches exactly one character,
    and any other character matches the characters that are the same
    for LIKE. *)
Fixpoint like_chars (pat s : list N) {struct pat} : bool :=
  match pat with
  | [] => match s with [] => true | _ :: _ => false end
  | c :: pat' =>
      if (c =? 37)%N then
        (fix any (t : list N) : bool :=
           like_chars pat' t ||
           match t with
           | [] => false
           | _ :: t' => any t'
           end) s
      else
        match s with
        | [] => false
        | d :: s' => ((c =? 95)%N || char_like c d) && like_chars pat' s'
        end
  end.

(** SQLite's LIKE, pattern first.  SQLite refuses a pattern of more than
    50000 bytes with an error; a lookup with such a pattern fails as a
    whole and is outside the model. *)
Definition sql_like (pat s : string) : bool :=
  like_chars (sql_chars pat) (sql_chars s).

(** SQL values and three-valued logic: [None] is NULL. *)
Definition sql_is_null (v : option string) : option bool :=
  match v with
  | None => Some true
  | Some _ => Some false
  end.

Definition sql_lower (v : option string) : option string :=
  option_map lower v.

Definition sql_like_op (text pat : option string) : option bool :=
  match text, pat with
  | Some t, Some p => Some (sql_like p t)
  | _, _ => None
  end.

Definition sql_eq (a b : option string) : option bool :=
  match a, b with
  | Some x, Some y => Some (x =? y)
  | _, _ => None
  end.

Definition sql_or (a b : option bool) : option bool :=
  match a, b with
  | Some true, _ | _, Some true => Some true
  | Some false, Some false => Some false
  | _, _ => None
  end.

Definition sql_and (a b : option bool) : option bool :=
  match a, b with
  | Some false, _ | _, Some false => Some false
  | Some true, Some true => Some true
  | _, _ => None
  end.

(** The WHERE clause of [filter]:
    (? IS NULL OR LOWER(title) LIKE LOWER(?)) AND size = ? *)
Definition filter_where (p1 p2 p3 : option string) (r : Product.t)
  : option bool :=
  sql_and
    (sql_or (sql_is_null p1)
            (sql_like_op (sql_lower (Some (Product.title r))) (sql_lower p2)))
    (sql_eq (Some (Product.size r)) p3).

(** A row is selected when the WHERE clause is true (not false, not NULL). *)
Definition selected (v : option bool) : bool :=
  match v with
  | Some true => true
  | _ => false
  end.

(** [filter.all(p1, p2, p3)]: SELECT * FROM products WHERE ... *)
Definition filter_all (db : Database) (p1 p2 p3 : option string)
  : list Product.t :=
  List.filter (fun r => selected (filter_where p1 p2 p3 r)) (rows db).

Definition getAllFilteredProducts (db : Database) (query : option string)
    (size : string) : list Product.t :=
  let formattedQuery :=
    match query with
    | Some (String _ _ as q) => Some ("%" ++ q ++ "%")   (* query ? ... *)
    | _ => None
    end in
  filter_all db formattedQuery formattedQuery (Some size).

(** ** Helpers *)

(** The characters [encodeURIComponent] leaves alone: letters, digits and
    - _ . ! ~ * ' ( ) *)
Definition uriUnreserved (c : ascii) : bool :=
  let n := N_of_ascii c in
  (((65 <=? n) && (n <=? 90)) || ((97 <=? n) && (n <=? 122))
   || ((48 <=? n) && (n <=? 57))
   || (n =? 45) || (n =? 95) || (n =? 46) || (n =? 33) || (n =? 126)
   || (n =? 42) || (n =? 39) || (n =? 40) || (n =? 41))%N.

Definition hex_digit (n : N) : ascii :=
  if (n <? 10)%N then ascii_of_N (48 + n) else ascii_of_N (55 + n).

(** A percent sign and the two upper-case hexadecimal digits of the octet. *)
Definition percent_octet (c : ascii) : string :=
  let n := N_of_ascii c in
  String "%" (String (hex_digit (n / 16)) (String (hex_digit (n mod 16)) "")).

Fixpoint encodeURIComponent (s : string) : string :=
  match s with
  | "" => ""
  | String c s' =>
      (if uriUnreserved c then String c "" else percent_octet c)
      ++ encodeURIComponent s'
  end.

Definition buildFilterUrl (baseUrl : string) (query : option string)
    (size : string) : string :=
  let formattedQuery :=
    match query with
    | Some (String _ _ as q) => "&query=" ++ encodeURIComponent q
    | _ => ""
    end in
  baseUrl ++ "?size=" ++ size ++ formattedQuery.

(** ** Components/partials *)

(** The value of a JSX attribute. *)
Inductive prop_value : Type :=
| PStr (s : string)
| PBool (b : bool)
| PNum (n : Z)
| PStyle (declarations : list (string * string)).

(** A JSX value: an element, a text child or a fragment [<>...</>]. *)
#[local] Unset Elimination Schemes.
Inductive jsx : Type :=
| Elem (tag : string) (props : list (string * prop_value)) (children : list jsx)
| Text (s : string)
| Fragment (children : list jsx).
#[local] Set Elimination Schemes.

(** [`${n}`] for a number that is an integer. *)
Definition string_of_number (n : Z) : string :=
  NilEmpty.string_of_int (Z.to_int n).

Definition Root (children : list jsx) : jsx :=
  Elem "html" [("lang", PStr "en")]
    [ Elem "head" []
        [ Elem "meta" [("charSet", PStr "utf-8")] [];
          Elem "meta" [("name", PStr "viewport");
                       ("content", PStr "width=device-width, initial-scale=1.0")] [];
          Elem "title" [] [Text "Query Params Example"];
          Elem "script"
            [("type", PStr "module");
             ("src", PStr "https://cdn.jsdelivr.net/gh/starfederation/datastar@1.0.0-RC.6/bundles/datastar.js")]
            [] ];
      Elem "body" [] children ].

Definition FilterFields (size query : string) : jsx :=
  Fragment
    [ Elem "label" []
        [ Text "Size:";
          Elem "select" [("name", PStr "size"); ("data-bind", PStr "size")]
            [ Elem "option" [("value", PStr "")] [Text "All"];
              Elem "option" [("value", PStr "small");
                             ("selected", PBool (size =? "small"))] [Text "Small"];
              Elem "option" [("value", PStr "medium");
                             ("selected", PBool (size =? "medium"))] [Text "Medium"];
              Elem "option" [("value", PStr "large");
                             ("selected", PBool (size =? "large"))] [Text "Large"] ] ];
      Elem "label" []
        [ Text "Search:";
          Elem "input" [("type", PStr "text"); ("name", PStr "query");
                        ("value", PStr query);
                        ("placeholder", PStr "Search...");
                        ("data-bind", PStr "query")] [] ];
      Elem "button" [("type", PStr "submit")] [Text "Search"] ].

Definition Products (products : list Product.t) : jsx :=
  Elem "div" []
    [ Elem "h1" [] [Text "Products"];
      Elem "ul" []
        (map (fun product =>
                Elem "li" [("key", PNum (Product.id product))]
                  [ Elem "a"
                      [("href",
                        PStr ("/product/" ++ string_of_number (Product.id product)))]
                      [ Text (Product.title product); Text " | ";
                        Text (Product.size product) ] ])
             products) ].

(** ** Web server setup *)

(** What a handler reads of the request: [c.req.path], [c.req.query(name)]
    and [c.req.header(name)], the header names in lower case. *)
Record Request : Type := mkRequest {
  path : string;
  queries : list (string * string);
  headers : list (string * string)
}.

Fixpoint lookup (name : string) (l : list (string * string)) : raw :=
  match l with
  | [] => Undefined
  | (k, v) :: l' => if k =? name then Str v else lookup name l'
  end.

Definition req_query (c : Request) (name : string) : raw :=
  lookup name (queries c).

Definition req_header (c : Request) (name : string) : raw :=
  lookup name (headers c).

(** [v === "true"] *)
Definition is_true_string (v : raw) : bool :=
  match v with
  | Str s => s =? "true"
  | _ => false
  end.

(** The instructions a handler writes on the event stream, in order.
    [patchElements] is given the markup of a JSX value; the model keeps
    the value. *)
Inductive sse_event : Type :=
| patchElements (elements : jsx)
| executeScript (script : string).

Inductive Response : Type :=
| c_html (document : jsx)
| c_text (body : string)
| SSE_stream (events : list sse_event).

(** GET /search-mpa *)
Definition search_mpa (db : Database) (c : Request) : Response :=
  let f := parseFilterInput
             (Input.mk (req_query c "size") (req_query c "query")) in
  let size := Filter.size f in
  let query := Filter.query f in
  let filteredProducts := getAllFilteredProducts db query size in
  c_html
    (Root
       [ Elem "form"
           [("data-on:input",
             PStr "evt.target.type === 'select' ? evt.target.form.requestSubmit() : null")]
           [FilterFields size (or_empty (nullish_or_null (req_query c "query")))];
         Products filteredProducts ]).

(** GET /search-update-url-client-side *)
Definition search_update_url_client_side (db : Database) (c : Request)
  : Response :=
  let f := parseFilterInput
             (Input.mk (req_query c "size") (req_query c "query")) in
  let size := Filter.size f in
  let query := Filter.query f in
  let filteredProducts := getAllFilteredProducts db query size in
  let updateQueryParams :=
    "window.history.replaceState({}, '', new URL(window.location.pathname+'?size='+$size+'&query='+$query, window.location.href).toString())" in
  let getFilteredProducts :=
    "@get('/search-update-url-client-side?size='+$size+'&query='+$query)" in
  let header :=
    Elem "form"
      [("data-signals:size", PStr ("'" ++ size ++ "'"));
       ("data-signals:query", PStr ("'" ++ or_empty query ++ "'"));
       ("data-on:input", PStr "evt.target.form.requestSubmit()");
       ("data-on:submit",
        PStr ("evt.preventDefault && " ++ getFilteredProducts ++ " && "
              ++ updateQueryParams))]
      [FilterFields size (or_empty query)] in
  let isFragment := is_true_string (req_header c "datastar-request") in
  if isFragment then
    SSE_stream
      [ patchElements (Elem "body" [] [header; Products filteredProducts]) ]
  else
    c_html (Root [header; Products filteredProducts]).

(** The script of /search-server-patch that replaces the history state. *)
Definition replaceState_script (filterUrl : string) : string :=
  "window.history.replaceState({}, '', new URL('" ++ filterUrl
  ++ "', window.location.href).toString())".

(** GET /search-server-patch *)
Definition search_server_patch (db : Database) (c : Request) : Response :=
  let f := parseFilterInput
             (Input.mk (req_query c "size") (req_query c "query")) in
  let size := Filter.size f in
  let query := Filter.query f in
  let filteredProducts := getAllFilteredProducts db query size in
  let filterUrl := buildFilterUrl (path c) query size in
  let getFilteredProducts :=
    "@get('" ++ path c ++ "?size='+$size+'&query='+$query)" in
  let header :=
    Fragment
      [ Elem "form"
          [("data-signals:size", PStr ("'" ++ size ++ "'"));
           ("data-signals:query", PStr ("'" ++ or_empty query ++ "'"));
           ("data-on:input", PStr "evt.target.form.requestSubmit()");
           ("data-on:submit",
            PStr ("evt.preventDefault && " ++ getFilteredProducts))]
          [FilterFields size (or_empty query)];
        Elem "a"
          [("href", PStr filterUrl);
           ("style", PStyle [("display", "block"); ("paddingBottom", "20px")])]
          [Text "Bookmark or share"] ] in
  let isFragment := is_true_string (req_header c "datastar-request") in
  if isFragment then
    SSE_stream
      [ patchElements (Elem "body" [] [header; Products filteredProducts]);
        executeScript (replaceState_script filterUrl) ]
  else
    c_html (Root [header; Products filteredProducts]).

(** The three search routes. *)
Inductive SearchRoute : Type :=
| SearchMpa
| SearchUpdateUrlClientSide
| SearchServerPatch.

Definition search_handler (r : SearchRoute) : Database -> Request -> Response :=
  match r with
  | SearchMpa => search_mpa
  | SearchUpdateUrlClientSide => search_update_url_client_side
  | SearchServerPatch => search_server_patch
  end.

(** ** Observations on values, used to state the properties *)

(** The list starts with the needle. *)
Fixpoint starts_with_chars (needle s : list N) : bool :=
  match needle with
  | [] => true
  | c :: needle' =>
      match s with
      | [] => false
      | d :: s' => (c =? d)%N && starts_with_chars needle' s'
      end
  end.

(** The needle is a contiguous run of the list. *)
Fixpoint includes_chars (needle haystack : list N) : bool :=
  starts_with_chars needle haystack ||
  match haystack with
  | [] => false
  | _ :: h' => includes_chars needle h'
  end.

(** The title contains the query as a substring, up to the case of ASCII
    letters: the characters of the folded query are a contiguous run of
    the characters of the folded title, both read up to a NUL byte. *)
Definition contains_ci (title query : string) : bool :=
  includes_chars (sql_chars (lower query)) (sql_chars (lower title)).





(** The JSX value has an element with this tag. *)
Fixpoint has_element (t : string) (j : jsx) : bool :=
  match j with
  | Elem tag _ children => (tag =? t) || existsb (has_element t) children
  | Text _ => false
  | Fragment children => existsb (has_element t) children
  end.

(** The response is a full HTML document: markup with an [html] root. *)
Definition is_full_document (r : Response) : bool :=
  match r with
  | c_html (Elem tag _ _) => tag =? "html"
  | _ => false
  end.

(** Some markup of the response, sent whole or streamed as a patch, has
    an [html] element. *)
Definition mentions_html (r : Response) : bool :=
  match r with
  | c_html document => has_element "html" document
  | c_text _ => false
  | SSE_stream events =>
      existsb (fun e => match e with
                        | patchElements elements => has_element "html" elements
                        | executeScript _ => false
                        end) events
  end.

Fixpoint href_of (props : list (string * prop_value)) : option string :=
  match props with
  | [] => None
  | (name, PStr v) :: props' => if name =? "href" then Some v else href_of props'
  | _ :: props' => href_of props'
  end.

(** The [a] elements of a JSX value, in document order: the [href] and
    the children of each. *)
Fixpoint anchors (j : jsx) : list (option string * list jsx) :=
  match j with
  | Elem tag props children =>
      (if tag =? "a" then [(href_of props, children)] else [])
      ++ flat_map anchors children
  | Text _ => []
  | Fragment children => flat_map anchors children
  end.

Definition is_bookmark (a : option string * list jsx) : bool :=
  match snd a with
  | [Text s] => s =? "Bookmark or share"
  | _ => false
  end.

(** The targets of the links labelled "Bookmark or share". *)
Definition bookmark_hrefs (j : jsx) : list (option string) :=
  map fst (filter is_bookmark (anchors j)).

(** Percent-decoding, the inverse of the encoding of one octet as a
    percent sign and two hexadecimal digits. *)
Definition hex_value (c : ascii) : option N :=
  let n := N_of_ascii c in
  if ((48 <=? n) && (n <=? 57))%N then Some (n - 48)%N
  else if ((65 <=? n) && (n <=? 70))%N then Some (n - 55)%N
  else if ((97 <=? n) && (n <=? 102))%N then Some (n - 87)%N
  else None.

Fixpoint percent_decode (s : string) : option string :=
  match s with
  | "" => Some ""
  | String c s' =>
      if (c =? "%")%char then
        match s' with
        | String h (String l s'') =>
            match hex_value h, hex_value l, percent_decode s'' with
            | Some a, Some b, Some r => Some (String (ascii_of_N (16 * a + b)) r)
            | _, _, _ => None
            end
        | _ => None
        end
      else option_map (String c) (percent_decode s')
  end.

(** The sizes of the source, [sizes]. *)
Definition sizes : list string := ["small"; "medium"; "large"].

(** ** The record set of the end-to-end scenario *)

Definition seeded : Database :=
  insert_run
    (insert_run
       (insert_run db_empty "Amazing Widget 1" "small")
       "Great Tool 2" "medium")
    "Super Gadget 3" "small".

Definition no_params : Request := mkRequest "/search-mpa" [] [].

Definition small_widget : Request :=
  mkRequest "/search-mpa" [("size", "small"); ("query", "widget")] [].

(** ** Sample data *)

Definition adjectives : list string :=
  [ "Amazing"; "Fantastic"; "Great"; "Super"; "Awesome";
    "Cool"; "Nice"; "Premium"; "Deluxe"; "Ultimate" ].

Definition nouns : list string :=
  [ "Widget"; "Gadget"; "Tool"; "Device"; "Item";
    "Product"; "Thing"; "Gizmo"; "Contraption"; "Apparatus" ].

(** The three indices [Math.floor(Math.random() * l.length)] that one
    iteration of the seeding loop draws. *)
Record Draw : Type := mkDraw {
  adjective_index : nat;
  noun_index : nat;
  size_index : nat
}.

(** The indices are within the lists, as [Math.random()] is below 1. *)
Definition in_range (d : Draw) : Prop :=
  adjective_index d < List.length adjectives
  /\ noun_index d < List.length nouns
  /\ size_index d < List.length sizes.

(** [`${adjective} ${noun} ${i + 1}`] *)
Definition seed_title (adjective noun : string) (i : nat) : string :=
  adjective ++ " " ++ noun ++ " " ++ string_of_number (Z.of_nat i + 1).

(** The body of the seeding loop.  An index outside [adjectives] or
    [nouns] reads [undefined], which the template prints; one outside
    [sizes] binds NULL to a NOT NULL column, and the insertion throws. *)
Definition seed_iteration (draws : nat -> Draw) (db : Database) (i : nat)
  : option Database :=
  let adjective := nth (adjective_index (draws i)) adjectives "undefined" in
  let noun := nth (noun_index (draws i)) nouns "undefined" in
  let title := seed_title adjective noun i in
  match nth_error sizes (size_index (draws i)) with
  | Some size => Some (insert_run db title size)
  | None => None
  end.

(** [for (let i = ...; i < ...; i++)], with the number of iterations left. *)
Fixpoint seed_loop (draws : nat -> Draw) (db : Database) (i remaining : nat)
  : option Database :=
  match remaining with
  | O => Some db
  | S k =>
      match seed_iteration draws db i with
      | Some db' => seed_loop draws db' (S i) k
      | None => None
      end
  end.

(** The table after start-up. *)
Definition seed (draws : nat -> Draw) : option Database :=
  seed_loop draws db_empty 0 100.

(** The row that iteration [i] of the seeding loop inserts into the
    table, when the draws are in range. *)
Definition seeded_row (draws : nat -> Draw) (i : nat) : Product.t :=
  Product.mk (Z.of_nat i + 1)
    (seed_title (nth (adjective_index (draws i)) adjectives "undefined")
                (nth (noun_index (draws i)) nouns "undefined") i)
    (nth (size_index (draws i)) sizes "small").

(** A run of [insert.run] calls, one per pair of a title and a size. *)
Definition inserts (db : Database) (l : list (string * string)) : Database :=
  fold_left (fun db ts => insert_run db (fst ts) (snd ts)) l db.

(** ** The earlier revision of the file

    The first revision of [index.tsx] computes the LIKE pattern in the
    parser, calls [filter.all] in the handlers and answers a fragment
    request of /search-update-url-client-side with the markup of the
    [body] element and a [datastar-merge-mode] header. *)

Module Rev1.

Record Parsed : Type := mkParsed {
  size : string;
  query : option string;
  queryPattern : option string
}.

Definition parseFilterInput (input : Input.t) : Parsed :=
  let size := "small" in
  let size :=
    match Input.size input with
    | Str (String _ _ as s) =>
        let isValid := (s =? "small") || (s =? "medium") || (s =? "large") in
        if isValid then s else size
    | _ => size
    end in
  let query := nullish_or_null (Input.query input) in
  let queryPattern :=
    match query with
    | Some (String _ _ as q) => Some ("%" ++ q ++ "%")
    | _ => None
    end in
  mkParsed size query queryPattern.

(** A response: the headers the handler set and the markup. *)
Inductive Response : Type :=
| c_html (headers : list (string * string)) (document : jsx)
| c_text (body : string).

Definition search_mpa (db : Database) (c : Request) : Response :=
  let f := parseFilterInput
             (Input.mk (req_query c "size") (req_query c "query")) in
  let filteredProducts :=
    filter_all db (queryPattern f) (queryPattern f) (Some (size f)) in
  c_html []
    (Root
       [ Elem "form"
           [("data-on:input",
             PStr "evt.target.type === 'select' ? evt.target.form.requestSubmit() : null")]
           [FilterFields (size f)
              (or_empty (nullish_or_null (req_query c "query")))];
         Products filteredProducts ]).

Definition search_update_url_client_side (db : Database) (c : Request)
  : Response :=
  let f := parseFilterInput
             (Input.mk (req_query c "size") (req_query c "query")) in
  let filteredProducts :=
    filter_all db (queryPattern f) (queryPattern f) (Some (size f)) in
  let formEl :=
    Elem "form"
      [("data-signals:size", PStr ("'" ++ size f ++ "'"));
       ("data-signals:query", PStr ("'" ++ or_empty (query f) ++ "'"));
       ("data-on:input", PStr "evt.target.form.requestSubmit()");
       ("data-on:submit",
        PStr "evt.preventDefault && @get('/search-update-url-client-side?size='+$size+'&query='+$query) && window.history.replaceState({}, '', new URL(window.location.pathname+'?size='+$size+'&query='+$query, window.location.href).toString())")]
      [FilterFields (size f) (or_empty (query f))] in
  let isFragment := is_true_string (req_header c "datastar-request") in
  if isFragment then
    c_html [("datastar-merge-mode", "morph_element")]
      (Elem "body" [] [formEl; Products filteredProducts])
  else
    c_html [] (Root [formEl; Products filteredProducts]).

Definition search_server_patch (c : Request) : Response :=
  c_text "Search server patch no update url update!".

End Rev1.

(** ** More observations *)

(** The query as the lookup and the URL builder read it: an empty string
    counts as absent. *)
Definition effective (query : option string) : option string :=
  match query with
  | Some (String _ _ as q) => Some q
  | _ => None
  end.

(** The text is made of percent signs only. *)
Fixpoint only_percent (s : string) : bool :=
  match s with
  | "" => true
  | String c s' => (c =? "%")%char && only_percent s'
  end.

(** Every character is one that [encodeURIComponent] leaves alone. *)
Fixpoint all_unreserved (s : string) : bool :=
  match s with
  | "" => true
  | String c s' => uriUnreserved c && all_unreserved s'
  end.

(** Every character can stand in a query parameter: it is unreserved or
    a percent sign. *)
Fixpoint parameter_safe (s : string) : bool :=
  match s with
  | "" => true
  | String c s' => (uriUnreserved c || (c =? "%")%char) && parameter_safe s'
  end.

(** Characters that delimit the parts of a URL and of its query string
    or open and close markup. *)
Definition delimiters : list ascii :=
  ["&"; "="; "?"; "#"; "/"; "+"; " "; ";"; ":"; "<"; ">"]%char.

(** No character of the text is one of these. *)
Fixpoint free_of (cs : list ascii) (s : string) : bool :=
  match s with
  | "" => true
  | String c s' => negb (existsb (Ascii.eqb c) cs) && free_of cs s'
  end.

Fixpoint prop_string (name : string) (props : list (string * prop_value))
  : option string :=
  match props with
  | [] => None
  | (k, PStr v) :: props' =>
      if k =? name then Some v else prop_string name props'
  | _ :: props' => prop_string name props'
  end.

Fixpoint prop_true (name : string) (props : list (string * prop_value)) : bool :=
  match props with
  | [] => false
  | (k, PBool b) :: props' => if k =? name then b else prop_true name props'
  | _ :: props' => prop_true name props'
  end.

(** The attributes of the elements with this tag, in document order. *)
Fixpoint elements (t : string) (j : jsx) : list (list (string * prop_value)) :=
  match j with
  | Elem tag props children =>
      (if tag =? t then [props] else []) ++ flat_map (elements t) children
  | Text _ => []
  | Fragment children => flat_map (elements t) children
  end.

(** The values of the options that are marked selected. *)
Definition selected_options (j : jsx) : list (option string) :=
  map (prop_string "value") (filter (prop_true "selected") (elements "option" j)).

(** The values of the text inputs named query. *)
Definition query_inputs (j : jsx) : list (option string) :=
  map (prop_string "value")
      (filter (fun props =>
                 match prop_string "name" props with
                 | Some n => n =? "query"
                 | None => false
                 end)
              (elements "input" j)).

(** The targets of the links other than the bookmark link. *)
Definition product_hrefs (j : jsx) : list (option string) :=
  map fst (filter (fun a => negb (is_bookmark a)) (anchors j)).

(** What is left of the text after the needle, when it starts with it. *)
Fixpoint strip_prefix (needle s : string) : option string :=
  match needle with
  | "" => Some s
  | String c needle' =>
      match s with
      | "" => None
      | String d s' => if (c =? d)%char then strip_prefix needle' s' else None
      end
  end.

(** What follows the first occurrence of the needle in the text. *)
Fixpoint after (needle s : string) : option string :=
  match strip_prefix needle s with
  | Some rest => Some rest
  | None =>
      match s with
      | "" => None
      | String _ s' => after needle s'
      end
  end.

(** The text of a single-quoted literal of a script, read from after its
    opening apostrophe: the characters before the next apostrophe.  A
    literal with a backslash or a line break is not read. *)
Fixpoint quoted_text (s : string) : option string :=
  match s with
  | "" => None
  | String c s' =>
      if (c =? "'")%char then Some ""
      else if ((N_of_ascii c =? 92) || (N_of_ascii c =? 10)
               || (N_of_ascii c =? 13))%N then None
      else option_map (String c) (quoted_text s')
  end.

(** The URL that a script hands to [new URL(] as a single-quoted
    literal. *)
Definition script_url (script : string) : option string :=
  match after "new URL('" script with
  | Some rest => quoted_text rest
  | None => None
  end.

(** The markup a response carries: the document, or the patches of the
    stream. *)
Definition markup (r : Response) : list jsx :=
  match r with
  | c_html document => [document]
  | c_text _ => []
  | SSE_stream events =>
      flat_map (fun e => match e with
                         | patchElements elements => [elements]
                         | executeScript _ => []
                         end) events
  end.

(** The [body] element of a document with an [html] root. *)
Definition document_body (j : jsx) : option jsx :=
  match j with
  | Elem tag _ children =>
      if tag =? "html" then
        find (fun child => match child with
                           | Elem t _ _ => t =? "body"
                           | _ => false
                           end) children
      else None
  | _ => None
  end.

(** * Properties *)

(** ** Strings *)

Lemma append_nil_r (s : string) : s ++ "" = s.
Proof. induction s as [|c s IH]; simpl; [reflexivity | now rewrite IH]. Qed.


Lemma starts_with_chars_spec (needle s : list N) :
  starts_with_chars needle s = true <-> exists post, s = (needle ++ post)%list.
Proof.
  revert s; induction needle as [|c n IH]; intros s; simpl.
  - split; [intros _; now exists s | reflexivity].
  - destruct s as [|d s].
    + split; [discriminate | intros [post H]; discriminate].
    + rewrite andb_true_iff, N.eqb_eq, IH. split.
      * intros [-> [post ->]]. now exists post.
      * intros [post H]. injection H as -> ->. split; [reflexivity | now exists post].
Qed.

Lemma includes_chars_spec (needle haystack : list N) :
  includes_chars needle haystack = true <->
  exists pre post, haystack = (pre ++ needle ++ post)%list.
Proof.
  induction haystack as [|d h IH]; simpl;
    rewrite orb_true_iff, starts_with_chars_spec.
  - split.
    + intros [[post H] | H]; [| discriminate]. now exists [], post.
    + intros [pre [post H]]. left. destruct pre; [now exists post | discriminate].
  - rewrite IH. split.
    + intros [[post H] | [pre [post H]]].
      * now exists [], post.
      * exists (d :: pre), post. simpl. now rewrite H.
    + intros [pre [post H]]. destruct pre as [|x pre]; simpl in H.
      * left. now exists post.
      * right. injection H as -> ->. now exists pre, post.
Qed.

(** ** Case folding *)

Lemma to_lower_idem (c : ascii) : to_lower (to_lower c) = to_lower c.
Proof. destruct c as [[] [] [] [] [] [] [] []]; reflexivity. Qed.

Lemma lower_idem (s : string) : lower (lower s) = lower s.
Proof.
  induction s as [|c s IH]; simpl; [reflexivity |].
  now rewrite to_lower_idem, IH.
Qed.

Lemma lower_app (a b : string) : lower (a ++ b) = lower a ++ lower b.
Proof. induction a as [|c a IH]; simpl; [reflexivity | now rewrite IH]. Qed.


(** ** The characters of a text *)









Lemma sql_chars_percent (s : string) :
  sql_chars_from None (String "%" s) = 37%N :: sql_chars_from None s.
Proof. reflexivity. Qed.


(** ** LIKE *)

Lemma like_chars_percent (p s : list N) :
  like_chars (37%N :: p) s =
  like_chars p s ||
  match s with
  | [] => false
  | _ :: s' => like_chars (37%N :: p) s'
  end.
Proof. destruct s; reflexivity. Qed.

Lemma like_chars_percents (p s : list N) :
  Forall (eq 37%N) p -> like_chars (37%N :: p) s = true.
Proof.
  intros H; revert s; induction H as [|c p <- Hp IH]; intros s.
  - induction s as [|d s IHs]; [reflexivity |].
    rewrite like_chars_percent, IHs. apply orb_true_r.
  - now rewrite like_chars_percent, IH.
Qed.






(** Containment up to case, as a statement about the characters: those
    of the folded query are a contiguous run of those of the folded
    title. *)
Lemma contains_ci_spec (title query : string) :
  contains_ci title query = true <->
  exists pre post,
    sql_chars (lower title) = (pre ++ sql_chars (lower query) ++ post)%list.
Proof. unfold contains_ci. apply includes_chars_spec. Qed.

(** ** The lookup *)

Lemma selected_filter_where (p1 : option string) (size : string) (r : Product.t) :
  selected (filter_where p1 p1 (Some size) r) =
  match p1 with
  | None => true
  | Some pat => sql_like (lower pat) (lower (Product.title r))
  end && (Product.size r =? size).
Proof.
  unfold filter_where. destruct p1 as [pat|]; simpl.
  - destruct (sql_like _ _), (Product.size r =? size); reflexivity.
  - destruct (Product.size r =? size); reflexivity.
Qed.





(** C9. An empty query selects the same records, in the same order, as
    an absent one: both give a NULL pattern. *)
Theorem getAllFilteredProducts_empty_query (db : Database) (size : string) :
  getAllFilteredProducts db (Some "") size = getAllFilteredProducts db None size
  /\ getAllFilteredProducts db (Some "") size = filter_all db None None (Some size).
Proof. split; reflexivity. Qed.

(** ** The filter parser *)

Lemma isSize_sizes (s : string) : isSize s = true <-> In s sizes.
Proof.
  unfold isSize, sizes. rewrite !orb_true_iff, !String.eqb_eq. simpl.
  intuition congruence.
Qed.

Lemma parseFilterInput_size_eq (rawSize rawQuery : raw) :
  Filter.size (parseFilterInput (Input.mk rawSize rawQuery)) =
  match rawSize with
  | Str s => if isSize s then s else "small"
  | _ => "small"
  end.
Proof. destruct rawSize as [| |[|c s]]; reflexivity. Qed.

(** C2. A raw size that is not one of small, medium and large, be it
    absent, null, empty or any other text, is parsed to small; a raw size
    that is one of the three is kept.  The parser is a total function:
    it raises no error. *)
Theorem parseFilterInput_size_fallback (rawSize rawQuery : raw) :
  ((forall s, rawSize = Str s -> ~ In s sizes) ->
   Filter.size (parseFilterInput (Input.mk rawSize rawQuery)) = "small")
  /\
  (forall s, rawSize = Str s -> In s sizes ->
   Filter.size (parseFilterInput (Input.mk rawSize rawQuery)) = s).
Proof.
  rewrite parseFilterInput_size_eq. split.
  - intros H. destruct rawSize as [| |s]; try reflexivity.
    destruct (isSize s) eqn:E; [| reflexivity].
    apply isSize_sizes in E. now destruct (H s eq_refl).
  - intros s -> H. apply isSize_sizes in H. now rewrite H.
Qed.

Lemma parseFilterInput_size_fallback_witness :
  Filter.size (parseFilterInput (Input.mk (Str "Large") Undefined)) = "small"
  /\ Filter.size (parseFilterInput (Input.mk (Str "") Null)) = "small"
  /\ Filter.size (parseFilterInput (Input.mk (Str "large") Undefined)) = "large".
Proof.
  split; [| split].
  - apply (proj1 (parseFilterInput_size_fallback (Str "Large") Undefined)).
    intros s H. injection H as <-. simpl. intuition discriminate.
  - apply (proj1 (parseFilterInput_size_fallback (Str "") Null)).
    intros s H. injection H as <-. simpl. intuition discriminate.
  - apply (proj2 (parseFilterInput_size_fallback (Str "large") Undefined) "large").
    + reflexivity.
    + simpl. tauto.
Defined.

(** C8. The size of a parsed filter is one of small, medium and large,
    whatever the raw inputs; it is a string, and not the empty one. *)
Theorem parseFilterInput_size_enumerated (rawSize rawQuery : raw) :
  In (Filter.size (parseFilterInput (Input.mk rawSize rawQuery))) sizes
  /\ Filter.size (parseFilterInput (Input.mk rawSize rawQuery)) <> "".
Proof.
  rewrite parseFilterInput_size_eq.
  assert (Hsmall : In "small" sizes) by (simpl; tauto).
  destruct rawSize as [| |s]; try (split; [assumption | discriminate]).
  destruct (isSize s) eqn:E; [| split; [assumption | discriminate]].
  apply isSize_sizes in E. split; [assumption |].
  intros ->. simpl in E. intuition discriminate.
Qed.

(** C4 (as amended). The parser keeps a raw query that is a string as it
    is, the empty string too, and gives an absent query exactly when the
    raw query is undefined or null. *)
Theorem parseFilterInput_query (rawSize rawQuery : raw) :
  (forall s, rawQuery = Str s ->
   Filter.query (parseFilterInput (Input.mk rawSize rawQuery)) = Some s)
  /\
  (Filter.query (parseFilterInput (Input.mk rawSize rawQuery)) = None <->
   rawQuery = Undefined \/ rawQuery = Null).
Proof.
  split.
  - intros s ->. reflexivity.
  - destruct rawQuery; simpl; split; intros H; auto; try discriminate.
    destruct H; discriminate.
Qed.

Lemma parseFilterInput_query_witness :
  Filter.query (parseFilterInput (Input.mk Undefined (Str "widget")))
  = Some "widget".
Proof.
  apply (proj1 (parseFilterInput_query Undefined (Str "widget")) "widget").
  reflexivity.
Defined.

(** C4, as stated, fails on the empty string: the parsed filter has the
    empty-string query, not an absent one. *)
Lemma parseFilterInput_empty_query_counterexample :
  Filter.query (parseFilterInput (Input.mk Undefined (Str ""))) = Some "".
Proof. reflexivity. Qed.

(** ** The filter URL *)

Lemma percent_decode_octet (c : ascii) (rest : string) :
  percent_decode (percent_octet c ++ rest)
  = option_map (String c) (percent_decode rest).
Proof.
  destruct c as [[] [] [] [] [] [] [] []]; cbv [percent_octet append];
    destruct (percent_decode rest) eqn:E;
    simpl; rewrite E; reflexivity.
Qed.

Lemma uriUnreserved_not_percent (c : ascii) :
  uriUnreserved c = true -> (c =? "%")%char = false.
Proof. destruct c as [[] [] [] [] [] [] [] []]; vm_compute; congruence. Qed.

(** What [encodeURIComponent] gives is decoded to the text it was given. *)
Lemma percent_decode_encodeURIComponent (s : string) :
  percent_decode (encodeURIComponent s) = Some s.
Proof.
  induction s as [|c s IH]; [reflexivity |].
  simpl encodeURIComponent. destruct (uriUnreserved c) eqn:E.
  - simpl. rewrite (uriUnreserved_not_percent c E), IH. reflexivity.
  - rewrite percent_decode_octet, IH. reflexivity.
Qed.

(** Every character of the encoding is an unreserved one or a percent sign. *)
Lemma encodeURIComponent_alphabet (s : string) (c : ascii) :
  In c (list_ascii_of_string (encodeURIComponent s)) ->
  uriUnreserved c = true \/ c = "%"%char.
Proof.
  induction s as [|d s IH]; simpl; [tauto |].
  destruct (uriUnreserved d) eqn:E; simpl.
  - intros [<- | H]; auto.
  - intros [<- | [<- | [<- | H]]]; auto; left;
      destruct d as [[] [] [] [] [] [] [] []]; reflexivity.
Qed.

Lemma buildFilterUrl_cases (baseUrl : string) (query : option string)
    (size : string) :
  buildFilterUrl baseUrl query size =
  match query with
  | Some (String c q) =>
      baseUrl ++ "?size=" ++ size ++ "&query=" ++ encodeURIComponent (String c q)
  | _ => baseUrl ++ "?size=" ++ size
  end.
Proof.
  unfold buildFilterUrl. destruct query as [[|c q]|];
    try reflexivity; now rewrite append_nil_r.
Qed.

(** C3 (as amended). The URL is a function of the path and the filter, so
    equal arguments give equal strings.  It is the path followed by the
    size parameter and, exactly when the query is present and is not the
    empty string, by the query parameter with the percent-encoded query,
    which percent-decoding turns back into the query.  For the path /x,
    the query foo bar and the size large it is
    /x?size=large&query=foo%20bar. *)
Theorem buildFilterUrl_form (baseUrl : string) (query : option string)
    (size : string) :
  (forall baseUrl' query' size',
     baseUrl' = baseUrl -> query' = query -> size' = size ->
     buildFilterUrl baseUrl' query' size' = buildFilterUrl baseUrl query size)
  /\
  (forall q, query = Some q -> q <> "" ->
     buildFilterUrl baseUrl query size
     = baseUrl ++ "?size=" ++ size ++ "&query=" ++ encodeURIComponent q
     /\ percent_decode (encodeURIComponent q) = Some q)
  /\
  (query = None \/ query = Some "" ->
     buildFilterUrl baseUrl query size = baseUrl ++ "?size=" ++ size)
  /\
  buildFilterUrl "/x" (Some "foo bar") "large" = "/x?size=large&query=foo%20bar".
Proof.
  split; [| split; [| split]].
  - now intros ? ? ? -> -> ->.
  - intros q -> Hq. rewrite buildFilterUrl_cases.
    destruct q as [|c q]; [now destruct Hq |].
    split; [reflexivity | apply percent_decode_encodeURIComponent].
  - rewrite buildFilterUrl_cases. now intros [-> | ->].
  - reflexivity.
Qed.

Lemma buildFilterUrl_form_witness :
  buildFilterUrl "/search-server-patch" (Some "a&b") "medium"
  = "/search-server-patch" ++ "?size=" ++ "medium" ++ "&query=" ++ "a%26b"
  /\ buildFilterUrl "/search-server-patch" None "medium"
     = "/search-server-patch" ++ "?size=" ++ "medium".
Proof.
  split.
  - apply (proj1 (proj2 (buildFilterUrl_form
                           "/search-server-patch" (Some "a&b") "medium")) "a&b").
    + reflexivity.
    + discriminate.
  - apply (proj1 (proj2 (proj2 (buildFilterUrl_form
                                  "/search-server-patch" None "medium")))).
    left. reflexivity.
Defined.

(** C3, as stated, fails on a query that is present and empty: the query
    parameter is left out. *)
Lemma buildFilterUrl_present_empty_counterexample :
  buildFilterUrl "/x" (Some "") "large" = "/x?size=large"
  /\ (buildFilterUrl "/x" (Some "") "large"
      =? "/x" ++ "?size=" ++ "large" ++ "&query=" ++ encodeURIComponent "")
     = false.
Proof. split; reflexivity. Qed.

(** C10. With the empty string as query the URL has no query parameter:
    it is the path followed by the size parameter, as with a null query. *)
Theorem buildFilterUrl_empty_query (baseUrl size : string) :
  buildFilterUrl baseUrl (Some "") size = baseUrl ++ "?size=" ++ size
  /\ buildFilterUrl baseUrl (Some "") size = buildFilterUrl baseUrl None size.
Proof. rewrite !buildFilterUrl_cases. split; reflexivity. Qed.

(** ** The end-to-end scenario *)

(** C7. On the table seeded with Amazing Widget 1 (small), Great Tool 2
    (medium) and Super Gadget 3 (small), the parameters size=small and
    query=widget select exactly Amazing Widget 1, and a request without
    parameters selects exactly the two small records, Amazing Widget 1
    and Super Gadget 3, and not the medium one. *)
Theorem seeded_scenario :
  rows seeded = [ Product.mk 1 "Amazing Widget 1" "small";
                  Product.mk 2 "Great Tool 2" "medium";
                  Product.mk 3 "Super Gadget 3" "small" ]
  /\
  (let f := parseFilterInput (Input.mk (req_query small_widget "size")
                                       (req_query small_widget "query")) in
   getAllFilteredProducts seeded (Filter.query f) (Filter.size f)
   = [ Product.mk 1 "Amazing Widget 1" "small" ])
  /\
  (let f := parseFilterInput (Input.mk (req_query no_params "size")
                                       (req_query no_params "query")) in
   getAllFilteredProducts seeded (Filter.query f) (Filter.size f)
   = [ Product.mk 1 "Amazing Widget 1" "small";
       Product.mk 3 "Super Gadget 3" "small" ]
   /\ ~ In (Product.mk 2 "Great Tool 2" "medium")
           (getAllFilteredProducts seeded (Filter.query f) (Filter.size f))).
Proof.
  split; [reflexivity |]. split; [reflexivity |]. split; [reflexivity |].
  vm_compute. intros [H | [H | []]]; discriminate.
Qed.

(** ** The search routes *)

Lemma FilterFields_no_html (size query : string) :
  has_element "html" (FilterFields size query) = false.
Proof. reflexivity. Qed.

Lemma existsb_map_false {A B : Type} (f : A -> B) (P : B -> bool) (l : list A) :
  (forall x, P (f x) = false) -> existsb P (map f l) = false.
Proof.
  intros H. induction l as [|x l IH]; simpl; [reflexivity |].
  now rewrite H, IH.
Qed.

Lemma Products_no_html (products : list Product.t) :
  has_element "html" (Products products) = false.
Proof.
  unfold Products. simpl.
  rewrite existsb_map_false; [reflexivity |].
  intros x. reflexivity.
Qed.

Lemma FilterFields_anchors (size query : string) :
  anchors (FilterFields size query) = [].
Proof. reflexivity. Qed.

Lemma Products_bookmarks (products : list Product.t) :
  filter is_bookmark (anchors (Products products)) = [].
Proof.
  unfold Products. simpl. rewrite app_nil_r.
  induction products as [|p ps IH]; [reflexivity |].
  simpl. exact IH.
Qed.

Lemma Root_is_document (children : list jsx) :
  is_full_document (c_html (Root children)) = true.
Proof. reflexivity. Qed.

Lemma search_mpa_document (db : Database) (c : Request) :
  is_full_document (search_mpa db c) = true.
Proof. reflexivity. Qed.

Lemma search_update_url_client_side_mode (db : Database) (c : Request) :
  if is_true_string (req_header c "datastar-request")
  then (exists fragment scripts,
          search_update_url_client_side db c
          = SSE_stream (patchElements fragment :: map executeScript scripts)
          /\ has_element "html" fragment = false)
       /\ is_full_document (search_update_url_client_side db c) = false
       /\ mentions_html (search_update_url_client_side db c) = false
  else is_full_document (search_update_url_client_side db c) = true.
Proof.
  unfold search_update_url_client_side.
  destruct (is_true_string _); [| reflexivity].
  split; [| split].
  - eexists. exists []. split; [reflexivity |].
    cbn [has_element existsb]. rewrite Products_no_html. reflexivity.
  - reflexivity.
  - cbn [mentions_html existsb has_element].
    rewrite Products_no_html. reflexivity.
Qed.

Lemma search_server_patch_mode (db : Database) (c : Request) :
  if is_true_string (req_header c "datastar-request")
  then (exists fragment scripts,
          search_server_patch db c
          = SSE_stream (patchElements fragment :: map executeScript scripts)
          /\ has_element "html" fragment = false)
       /\ is_full_document (search_server_patch db c) = false
       /\ mentions_html (search_server_patch db c) = false
  else is_full_document (search_server_patch db c) = true.
Proof.
  unfold search_server_patch.
  destruct (is_true_string _); [| reflexivity].
  split; [| split].
  - eexists. eexists (_ :: nil). split; [reflexivity |].
    cbn [has_element existsb]. rewrite Products_no_html. reflexivity.
  - reflexivity.
  - cbn [mentions_html existsb has_element].
    rewrite Products_no_html. reflexivity.
Qed.

(** C5 (as amended). On /search-update-url-client-side and on
    /search-server-patch a request whose datastar-request header is true
    is answered with a stream that starts with a patch and goes on with
    scripts only; the patch has no html element and the response is not a
    full HTML document.  Any other request there is answered with a full
    HTML document.  /search-mpa answers every request with a full HTML
    document, whatever the header. *)
Theorem search_routes_document_or_fragment (db : Database) (c : Request) :
  (is_true_string (req_header c "datastar-request") = true ->
   forall r, r <> SearchMpa ->
     (exists fragment scripts,
        search_handler r db c
        = SSE_stream (patchElements fragment :: map executeScript scripts)
        /\ has_element "html" fragment = false)
     /\ is_full_document (search_handler r db c) = false
     /\ mentions_html (search_handler r db c) = false)
  /\
  (is_true_string (req_header c "datastar-request") = false ->
   forall r, is_full_document (search_handler r db c) = true)
  /\
  is_full_document (search_handler SearchMpa db c) = true.
Proof.
  pose proof (search_update_url_client_side_mode db c) as Hu.
  pose proof (search_server_patch_mode db c) as Hp.
  split; [| split].
  - intros H r Hr. rewrite H in Hu, Hp.
    destruct r; [now destruct Hr | exact Hu | exact Hp].
  - intros H r. rewrite H in Hu, Hp.
    destruct r; [apply search_mpa_document | exact Hu | exact Hp].
  - apply search_mpa_document.
Qed.

Lemma search_routes_document_or_fragment_witness :
  ((exists fragment scripts,
      search_handler SearchServerPatch seeded
        (mkRequest "/search-server-patch" [("size", "small")]
                   [("datastar-request", "true")])
      = SSE_stream (patchElements fragment :: map executeScript scripts)
      /\ has_element "html" fragment = false)
   /\ is_full_document
        (search_handler SearchServerPatch seeded
           (mkRequest "/search-server-patch" [("size", "small")]
                      [("datastar-request", "true")])) = false
   /\ mentions_html
        (search_handler SearchServerPatch seeded
           (mkRequest "/search-server-patch" [("size", "small")]
                      [("datastar-request", "true")])) = false)
  /\ is_full_document
       (search_handler SearchUpdateUrlClientSide seeded
          (mkRequest "/search-update-url-client-side" [("size", "small")]
                     [("datastar-request", "false")])) = true.
Proof.
  split.
  - apply (proj1 (search_routes_document_or_fragment seeded
                    (mkRequest "/search-server-patch" [("size", "small")]
                               [("datastar-request", "true")]))).
    + reflexivity.
    + discriminate.
  - apply (proj1 (proj2 (search_routes_document_or_fragment seeded
                           (mkRequest "/search-update-url-client-side"
                                      [("size", "small")]
                                      [("datastar-request", "false")])))).
    reflexivity.
Defined.

(** C5, as stated, fails on /search-mpa: a request with the header
    datastar-request: true is answered with a full HTML document. *)
Lemma search_mpa_fragment_counterexample :
  let c := mkRequest "/search-mpa" [("size", "small")]
                     [("datastar-request", "true")] in
  is_true_string (req_header c "datastar-request") = true
  /\ is_full_document (search_handler SearchMpa seeded c) = true
  /\ mentions_html (search_handler SearchMpa seeded c) = true.
Proof. repeat split. Qed.

(** When the datastar-request header is true, /search-server-patch
    streams exactly one patch followed by one script; the text of the
    script is the call that replaces the history state, written around
    the URL that [buildFilterUrl] gives for the request path and the
    parsed filter, and this URL is the target of the one "Bookmark or
    share" link of the patched fragment. *)
Lemma search_server_patch_stream (db : Database) (c : Request) :
  is_true_string (req_header c "datastar-request") = true ->
  let f := parseFilterInput
             (Input.mk (req_query c "size") (req_query c "query")) in
  let filterUrl := buildFilterUrl (path c) (Filter.query f) (Filter.size f) in
  exists fragment,
    search_server_patch db c
    = SSE_stream [ patchElements fragment;
                   executeScript (replaceState_script filterUrl) ]
    /\ bookmark_hrefs fragment = [Some filterUrl]
    /\ replaceState_script filterUrl
       = "window.history.replaceState({}, '', new URL('" ++ filterUrl
         ++ "', window.location.href).toString())".
Proof.
  intros H f filterUrl. unfold search_server_patch. rewrite H.
  eexists. split; [reflexivity |]. split; [| reflexivity].
  unfold bookmark_hrefs. fold f. fold filterUrl.
  set (ps := getAllFilteredProducts db (Filter.query f) (Filter.size f)).
  pose proof (Products_bookmarks ps) as Hps.
  cbn [anchors flat_map String.eqb Ascii.eqb Bool.eqb app href_of].
  rewrite FilterFields_anchors. cbn [app].
  rewrite app_nil_r. cbn [filter is_bookmark snd String.eqb Ascii.eqb Bool.eqb].
  rewrite Hps. reflexivity.
Qed.

(** C6 (a defect of the code). The claim fails on a query with an
    apostrophe, which [encodeURIComponent] leaves as it is: for the
    query it's the link of the patched fragment points to
    /search-server-patch?size=small&query=it's, and in the streamed
    script the apostrophe ends the single-quoted URL, whose text is
    /search-server-patch?size=small&query=it. *)
Theorem search_server_patch_apostrophe :
  let c := mkRequest "/search-server-patch" [("query", "it's")]
                     [("datastar-request", "true")] in
  exists fragment script,
    search_server_patch seeded c
    = SSE_stream [patchElements fragment; executeScript script]
    /\ bookmark_hrefs fragment
       = [Some "/search-server-patch?size=small&query=it's"]
    /\ script
       = "window.history.replaceState({}, '', new URL('/search-server-patch?size=small&query=it's', window.location.href).toString())"
    /\ script_url script = Some "/search-server-patch?size=small&query=it".
Proof.
  intro c. do 2 eexists. split; [reflexivity |].
  split; [| split]; reflexivity.
Qed.

(** * Further properties of the code *)

(** ** The table *)

Lemma inserts_cons (db : Database) (ts : string * string)
    (l : list (string * string)) :
  inserts db (ts :: l) = inserts (insert_run db (fst ts) (snd ts)) l.
Proof. reflexivity. Qed.

Lemma inserts_seq (db : Database) (l : list (string * string)) :
  seq (inserts db l) = (seq db + Z.of_nat (List.length l))%Z.
Proof.
  revert db; induction l as [|ts l IH]; intros db.
  - simpl. lia.
  - rewrite inserts_cons, IH. simpl. lia.
Qed.

Lemma inserts_ids (db : Database) (l : list (string * string)) :
  map Product.id (rows (inserts db l))
  = (map Product.id (rows db)
     ++ map (fun k => (seq db + Z.of_nat k)%Z) (List.seq 1 (List.length l)))%list.
Proof.
  revert db; induction l as [|ts l IH]; intros db.
  - simpl. now rewrite app_nil_r.
  - rewrite inserts_cons, IH. simpl rows. simpl seq.
    rewrite map_app, <- app_assoc. f_equal.
    cbn [List.length List.seq map app Product.id]. replace (Z.of_nat 1) with 1%Z by reflexivity. apply f_equal.
    rewrite <- (seq_shift (List.length l) 1), map_map.
    apply map_ext. intros k. lia.
Qed.

Lemma inserts_contents (db : Database) (l : list (string * string)) :
  map (fun r => (Product.title r, Product.size r)) (rows (inserts db l))
  = (map (fun r => (Product.title r, Product.size r)) (rows db) ++ l)%list.
Proof.
  revert db; induction l as [|[t s] l IH]; intros db.
  - simpl. now rewrite app_nil_r.
  - rewrite inserts_cons, IH. simpl. now rewrite map_app, <- app_assoc.
Qed.

(** X1. Whatever is inserted into the empty table, the rows come out in
    insertion order with the titles and sizes given, and their ids are
    1, 2, ..., n: positive and pairwise distinct. *)
Theorem inserts_autoincrement (l : list (string * string)) :
  map Product.id (rows (inserts db_empty l))
  = map Z.of_nat (List.seq 1 (List.length l))
  /\ NoDup (map Product.id (rows (inserts db_empty l)))
  /\ Forall (fun r => (0 < Product.id r)%Z) (rows (inserts db_empty l))
  /\ map (fun r => (Product.title r, Product.size r)) (rows (inserts db_empty l))
     = l.
Proof.
  assert (Hids : map Product.id (rows (inserts db_empty l))
                 = map Z.of_nat (List.seq 1 (List.length l))).
  { rewrite inserts_ids. simpl. apply map_ext. intros k. lia. }
  split; [exact Hids |]. split; [| split].
  - rewrite Hids. apply Finite.Injective_map_NoDup.
    + intros a b. apply Nat2Z.inj.
    + apply seq_NoDup.
  - apply Forall_forall. intros r Hr.
    apply (in_map Product.id) in Hr. rewrite Hids in Hr.
    apply in_map_iff in Hr as [k [<- Hk]]. apply in_seq in Hk. lia.
  - now rewrite inserts_contents.
Qed.

(** X2. Inserting a record keeps every earlier result of a lookup and
    adds the new record at the end exactly when its size is the one
    asked for and the query is absent, empty or matches its title; so a
    lookup by the size of the new record alone ends with it. *)
Theorem insert_then_lookup (db : Database) (title size : string)
    (query : option string) (size' : string) :
  getAllFilteredProducts (insert_run db title size) query size'
  = (getAllFilteredProducts db query size'
     ++ (if (size =? size')
            && match effective query with
               | None => true
               | Some q => sql_like (lower ("%" ++ q ++ "%")) (lower title)
               end
         then [Product.mk (seq db + 1) title size] else []))%list
  /\ getAllFilteredProducts (insert_run db title size) None size
     = (getAllFilteredProducts db None size
        ++ [Product.mk (seq db + 1) title size])%list.
Proof.
  split.
  - unfold getAllFilteredProducts, filter_all, insert_run. simpl rows.
    rewrite filter_app. f_equal. cbn [filter].
    rewrite selected_filter_where. cbn [Product.title Product.size].
    rewrite andb_comm. destruct query as [[|c q]|]; reflexivity.
  - unfold getAllFilteredProducts, filter_all, insert_run. simpl rows.
    rewrite filter_app. f_equal. cbn [filter].
    rewrite selected_filter_where. cbn [Product.size].
    now rewrite String.eqb_refl.
Qed.

(** ** The sample data *)

Lemma seed_loop_rows (draws : nat -> Draw) (n : nat) :
  forall (db : Database) (i : nat),
    seq db = Z.of_nat i ->
    (forall j, i <= j < i + n -> in_range (draws j)) ->
    seed_loop draws db i n
    = Some (mkDatabase (rows db ++ map (seeded_row draws) (List.seq i n))%list
                       (Z.of_nat (i + n))).
Proof.
  induction n as [|n IH]; intros db i Hseq Hr.
  - simpl. rewrite app_nil_r, Nat.add_0_r, <- Hseq. now destruct db.
  - cbn [seed_loop]. unfold seed_iteration.
    destruct (Hr i ltac:(lia)) as (_ & _ & Hs).
    destruct (nth_error sizes (size_index (draws i))) as [s|] eqn:E;
      [| apply nth_error_None in E; lia].
    rewrite IH.
    + f_equal. unfold insert_run. cbn [rows seq List.seq map].
      rewrite <- app_assoc. cbn [app]. f_equal; [| f_equal; lia].
      f_equal. f_equal. unfold seeded_row. rewrite Hseq.
      f_equal. symmetry. now apply nth_error_nth.
    + unfold insert_run. cbn [seq]. lia.
    + intros j Hj. apply Hr. lia.
Qed.

(** X3. When every draw of the seeding loop is within its list, start-up
    succeeds and leaves a table of 100 rows with the ids 1 to 100 in
    order; every row has one of the three sizes and a title made of an
    adjective, a noun and the row's own id. *)
Theorem seed_table (draws : nat -> Draw) :
  (forall i, i < 100 -> in_range (draws i)) ->
  exists db,
    seed draws = Some db
    /\ List.length (rows db) = 100
    /\ map Product.id (rows db) = map Z.of_nat (List.seq 1 100)
    /\ Forall (fun r =>
                 In (Product.size r) sizes
                 /\ exists adjective noun,
                      In adjective adjectives /\ In noun nouns
                      /\ Product.title r
                         = adjective ++ " " ++ noun ++ " "
                           ++ string_of_number (Product.id r))
              (rows db).
Proof.
  intros Hr. unfold seed.
  rewrite (seed_loop_rows draws 100 db_empty 0 eq_refl)
    by (intros j Hj; apply Hr; lia).
  eexists. split; [reflexivity |]. cbn [rows db_empty app].
  split; [| split].
  - now rewrite length_map, length_seq.
  - rewrite <- (seq_shift 100 0), !map_map.
    apply map_ext. intros i. unfold seeded_row. cbn [Product.id]. lia.
  - apply Forall_forall. intros r Hin.
    apply in_map_iff in Hin as [i [<- Hi]]. apply in_seq in Hi.
    destruct (Hr i ltac:(lia)) as (Ha & Hn & Hs).
    unfold seeded_row. cbn [Product.id Product.title Product.size].
    split; [now apply nth_In |].
    exists (nth (adjective_index (draws i)) adjectives "undefined"),
           (nth (noun_index (draws i)) nouns "undefined").
    split; [now apply nth_In |]. split; [now apply nth_In |]. reflexivity.
Qed.

Lemma seed_table_witness :
  exists db,
    seed (fun _ => mkDraw 0 1 2) = Some db
    /\ List.length (rows db) = 100
    /\ map Product.id (rows db) = map Z.of_nat (List.seq 1 100)
    /\ Forall (fun r =>
                 In (Product.size r) sizes
                 /\ exists adjective noun,
                      In adjective adjectives /\ In noun nouns
                      /\ Product.title r
                         = adjective ++ " " ++ noun ++ " "
                           ++ string_of_number (Product.id r))
              (rows db).
Proof.
  apply (seed_table (fun _ => mkDraw 0 1 2)).
  intros i _. unfold in_range. simpl. lia.
Defined.

(** ** More on the lookup *)

Lemma getAllFilteredProducts_filter (db : Database) (query : option string)
    (size : string) :
  getAllFilteredProducts db query size
  = filter (fun r =>
              match effective query with
              | None => true
              | Some q => sql_like (lower ("%" ++ q ++ "%")) (lower (Product.title r))
              end && (Product.size r =? size))
           (rows db).
Proof.
  unfold getAllFilteredProducts, filter_all. apply filter_ext. intros r.
  rewrite selected_filter_where. destruct query as [[|c q]|]; reflexivity.
Qed.

(** X4. When every row has one of the three sizes, the lookups without a
    query for small, medium and large split the table: together they
    return every row exactly once. *)
Theorem size_lookups_partition (db : Database) :
  Forall (fun r => In (Product.size r) sizes) (rows db) ->
  Permutation
    (getAllFilteredProducts db None "small"
     ++ getAllFilteredProducts db None "medium"
     ++ getAllFilteredProducts db None "large")%list
    (rows db).
Proof.
  rewrite !getAllFilteredProducts_filter. cbn [effective andb].
  induction (rows db) as [|r rs IH]; intros H; [constructor |].
  inversion H as [|? ? Hr Hrs]; subst. specialize (IH Hrs).
  cbn [filter]. destruct Hr as [E | [E | [E | []]]]; rewrite <- E; cbn.
  - now apply perm_skip.
  - apply Permutation_sym, Permutation_cons_app, Permutation_sym. exact IH.
  - rewrite app_assoc.
    apply Permutation_sym, Permutation_cons_app, Permutation_sym.
    rewrite <- app_assoc. exact IH.
Qed.

Lemma size_lookups_partition_witness :
  Permutation
    (getAllFilteredProducts seeded None "small"
     ++ getAllFilteredProducts seeded None "medium"
     ++ getAllFilteredProducts seeded None "large")%list
    (rows seeded).
Proof.
  apply (size_lookups_partition seeded).
  repeat constructor; simpl; tauto.
Defined.

(** X5. A record that a lookup returns is a row of the table, has the
    size asked for and is also returned by the lookup for that size
    without a query: a query only narrows the result. *)
Theorem query_narrows (db : Database) (query : option string) (size : string)
    (p : Product.t) :
  In p (getAllFilteredProducts db query size) ->
  In p (rows db) /\ Product.size p = size
  /\ In p (getAllFilteredProducts db None size).
Proof.
  rewrite !getAllFilteredProducts_filter, !filter_In, andb_true_iff.
  cbn [effective andb]. rewrite String.eqb_eq. tauto.
Qed.

Lemma query_narrows_witness :
  let p := Product.mk 3 "Super Gadget 3" "small" in
  In p (rows seeded) /\ Product.size p = "small"
  /\ In p (getAllFilteredProducts seeded None "small").
Proof.
  intro p. apply (query_narrows seeded (Some "gadget") "small" p).
  vm_compute. auto.
Defined.

(** X6. Two queries that differ only in the case of ASCII letters return
    the same records. *)
Theorem query_case_insensitive (db : Database) (q1 q2 size : string) :
  lower q1 = lower q2 ->
  getAllFilteredProducts db (Some q1) size
  = getAllFilteredProducts db (Some q2) size.
Proof.
  intros H. rewrite !getAllFilteredProducts_filter.
  destruct q1 as [|c1 q1], q2 as [|c2 q2]; try discriminate; [reflexivity |].
  cbn [effective]. apply filter_ext. intros r.
  replace (lower ("%" ++ String c1 q1 ++ "%"))
    with (String "%" (lower (String c1 q1) ++ "%"))
    by (cbn [append lower]; now rewrite lower_app).
  replace (lower ("%" ++ String c2 q2 ++ "%"))
    with (String "%" (lower (String c2 q2) ++ "%"))
    by (cbn [append lower]; now rewrite lower_app).
  now rewrite H.
Qed.

Lemma query_case_insensitive_witness :
  getAllFilteredProducts seeded (Some "WiDgEt") "small"
  = getAllFilteredProducts seeded (Some "widget") "small".
Proof. apply (query_case_insensitive seeded "WiDgEt" "widget" "small"). reflexivity. Defined.

Lemma only_percent_chars (q : string) :
  only_percent q = true ->
  Forall (eq 37%N) (sql_chars_from None (lower q ++ "%")).
Proof.
  induction q as [|c q IH]; intros H.
  - repeat constructor.
  - simpl in H. apply andb_true_iff in H as [Hc Hq].
    apply Ascii.eqb_eq in Hc. subst c.
    change (lower (String "%" q) ++ "%") with (String "%" (lower q ++ "%")).
    rewrite sql_chars_percent. constructor; [reflexivity | now apply IH].
Qed.

Lemma sql_like_only_percent (q s : string) :
  only_percent q = true -> sql_like (String "%" (lower q ++ "%")) s = true.
Proof.
  intros H. unfold sql_like, sql_chars. rewrite sql_chars_percent.
  apply like_chars_percents. now apply only_percent_chars.
Qed.

(** X7. A query made of percent signs only returns every record of the
    size asked for, like an absent query. *)
Theorem percent_query_selects_all (db : Database) (q size : string) :
  only_percent q = true ->
  getAllFilteredProducts db (Some q) size = getAllFilteredProducts db None size.
Proof.
  intros H. rewrite !getAllFilteredProducts_filter.
  destruct q as [|c q]; [reflexivity |].
  cbn [effective]. apply filter_ext. intros r.
  replace (lower ("%" ++ String c q ++ "%"))
    with (String "%" (lower (String c q) ++ "%"))
    by (cbn [append lower]; now rewrite lower_app).
  now rewrite (sql_like_only_percent _ _ H).
Qed.

Lemma percent_query_selects_all_witness :
  getAllFilteredProducts seeded (Some "%%") "small"
  = getAllFilteredProducts seeded None "small".
Proof. apply (percent_query_selects_all seeded "%%" "small"). reflexivity. Defined.

(** ** More on the filter URL *)

Lemma append_inj_l (a x y : string) : a ++ x = a ++ y -> x = y.
Proof.
  induction a as [|c a IH]; simpl; intros H; [exact H |].
  injection H as H. now apply IH.
Qed.


Lemma encoded_character_safe (c : ascii) (rest : string) :
  parameter_safe
    ((if uriUnreserved c then String c "" else percent_octet c) ++ rest)
  = parameter_safe rest
  /\ free_of delimiters
       ((if uriUnreserved c then String c "" else percent_octet c) ++ rest)
     = free_of delimiters rest.
Proof. destruct c as [[] [] [] [] [] [] [] []]; split; reflexivity. Qed.

(** X8. The encoded query has only unreserved characters and percent
    signs: none of the characters that delimit a URL or its parameters,
    whatever the query. *)
Theorem encodeURIComponent_safe (q : string) :
  parameter_safe (encodeURIComponent q) = true
  /\ free_of delimiters (encodeURIComponent q) = true.
Proof.
  induction q as [|c q [IH1 IH2]]; [split; reflexivity |].
  cbn [encodeURIComponent].
  destruct (encoded_character_safe c (encodeURIComponent q)) as [-> ->].
  now split.
Qed.

Lemma encodeURIComponent_unreserved (q : string) :
  all_unreserved q = true -> encodeURIComponent q = q.
Proof.
  induction q as [|c q IH]; [reflexivity |].
  simpl. intros H. apply andb_true_iff in H as [-> Hq]. simpl.
  now rewrite IH.
Qed.

(** X9. A non-empty query made of letters, digits and the marks
    - _ . ! ~ * ' ( ) stands in the URL as it is. *)
Theorem buildFilterUrl_unreserved (baseUrl q size : string) :
  q <> "" -> all_unreserved q = true ->
  buildFilterUrl baseUrl (Some q) size
  = baseUrl ++ "?size=" ++ size ++ "&query=" ++ q.
Proof.
  intros Hq H. rewrite buildFilterUrl_cases.
  destruct q as [|c q]; [now destruct Hq |].
  now rewrite (encodeURIComponent_unreserved _ H).
Qed.

Lemma buildFilterUrl_unreserved_witness :
  buildFilterUrl "/search-server-patch" (Some "Super_Tool-2") "medium"
  = "/search-server-patch" ++ "?size=" ++ "medium" ++ "&query=" ++ "Super_Tool-2".
Proof.
  apply (buildFilterUrl_unreserved "/search-server-patch" "Super_Tool-2" "medium").
  - discriminate.
  - reflexivity.
Defined.


Lemma effective_encoding_injective (q1 q2 : option string) :
  match effective q1 with
  | Some q => "&query=" ++ encodeURIComponent q
  | None => ""
  end
  = match effective q2 with
    | Some q => "&query=" ++ encodeURIComponent q
    | None => ""
    end ->
  effective q1 = effective q2.
Proof.
  destruct (effective q1) as [a|], (effective q2) as [b|];
    try discriminate; [| reflexivity].
  intros H. apply append_inj_l in H.
  apply (f_equal percent_decode) in H.
  rewrite !percent_decode_encodeURIComponent in H. exact H.
Qed.

Lemma buildFilterUrl_effective (baseUrl : string) (query : option string)
    (size : string) :
  buildFilterUrl baseUrl query size
  = baseUrl ++ "?size=" ++ size
    ++ match effective query with
       | Some q => "&query=" ++ encodeURIComponent q
       | None => ""
       end.
Proof. destruct query as [[|c q]|]; reflexivity. Qed.

(** X11. For sizes among the three, the URL tells the filter: two
    filters with the same URL on the same path have the same size and
    the same query, an empty query counting as absent. *)
Theorem buildFilterUrl_injective (baseUrl : string) (q1 q2 : option string)
    (s1 s2 : string) :
  In s1 sizes -> In s2 sizes ->
  buildFilterUrl baseUrl q1 s1 = buildFilterUrl baseUrl q2 s2 ->
  s1 = s2 /\ effective q1 = effective q2.
Proof.
  intros H1 H2 H. rewrite !buildFilterUrl_effective in H.
  apply append_inj_l in H. apply (append_inj_l "?size=") in H.
  simpl in H1, H2.
  destruct H1 as [<- | [<- | [<- | []]]], H2 as [<- | [<- | [<- | []]]];
    try discriminate H;
    (split; [reflexivity |]);
    apply effective_encoding_injective;
    first [ apply (append_inj_l "small"); exact H
          | apply (append_inj_l "medium"); exact H
          | apply (append_inj_l "large"); exact H ].
Qed.

Lemma buildFilterUrl_injective_witness :
  "large" = "large" /\ effective (Some "") = effective None.
Proof.
  apply (buildFilterUrl_injective "/x" (Some "") None "large" "large").
  - simpl. tauto.
  - simpl. tauto.
  - reflexivity.
Defined.

(** ** More on the parser *)

(** X12. Parsing is idempotent: a request made of the size and the query
    of a parsed filter is parsed to the same filter. *)
Theorem parseFilterInput_idempotent (input : Input.t) :
  let f := parseFilterInput input in
  parseFilterInput
    (Input.mk (Str (Filter.size f))
              (match Filter.query f with Some q => Str q | None => Undefined end))
  = f.
Proof.
  destruct input as [rawSize rawQuery]. cbv zeta.
  assert (Hq : nullish_or_null
                 (match nullish_or_null rawQuery with
                  | Some q => Str q
                  | None => Undefined
                  end) = nullish_or_null rawQuery)
    by (destruct rawQuery; reflexivity).
  unfold parseFilterInput. cbn [Input.size Input.query Filter.size Filter.query].
  rewrite Hq. f_equal.
  destruct rawSize as [| |[|c s]]; try reflexivity.
  destruct ((String c s =? "small") || (String c s =? "medium")
            || (String c s =? "large")) eqn:E.
  - now rewrite E.
  - reflexivity.
Qed.

(** ** More on the search routes *)

Lemma parsed_size_cases (input : Input.t) :
  Filter.size (parseFilterInput input) = "small"
  \/ Filter.size (parseFilterInput input) = "medium"
  \/ Filter.size (parseFilterInput input) = "large".
Proof.
  destruct input as [rawSize rawQuery]. rewrite parseFilterInput_size_eq.
  destruct rawSize as [| |s]; auto.
  destruct (isSize s) eqn:E; auto.
  apply isSize_sizes in E. simpl in E. intuition.
Qed.

Lemma FilterFields_options (size query : string) :
  elements "option" (FilterFields size query)
  = [ [("value", PStr "")];
      [("value", PStr "small"); ("selected", PBool (size =? "small"))];
      [("value", PStr "medium"); ("selected", PBool (size =? "medium"))];
      [("value", PStr "large"); ("selected", PBool (size =? "large"))] ].
Proof. reflexivity. Qed.

Lemma FilterFields_inputs (size query : string) :
  elements "input" (FilterFields size query)
  = [ [("type", PStr "text"); ("name", PStr "query"); ("value", PStr query);
       ("placeholder", PStr "Search..."); ("data-bind", PStr "query")] ].
Proof. reflexivity. Qed.

Lemma Products_options (products : list Product.t) :
  elements "option" (Products products) = [].
Proof.
  unfold Products. simpl. rewrite app_nil_r.
  induction products as [|p ps IH]; [reflexivity | exact IH].
Qed.

Lemma Products_inputs (products : list Product.t) :
  elements "input" (Products products) = [].
Proof.
  unfold Products. simpl. rewrite app_nil_r.
  induction products as [|p ps IH]; [reflexivity | exact IH].
Qed.

Lemma FilterFields_selected (size query : string) :
  In size sizes ->
  selected_options (FilterFields size query) = [Some size]
  /\ query_inputs (FilterFields size query) = [Some query].
Proof.
  intros H. unfold selected_options, query_inputs.
  rewrite FilterFields_options, FilterFields_inputs. simpl in H.
  destruct H as [<- | [<- | [<- | []]]]; split; reflexivity.
Qed.

Ltac page_elements :=
  unfold selected_options, query_inputs;
  cbn [markup flat_map app elements String.eqb Ascii.eqb Bool.eqb Root];
  rewrite ?Products_options, ?Products_inputs, ?app_nil_r.

(** X13. Every search route renders the filter it parsed: in the page or
    the patch it answers with, exactly one size option is marked
    selected, the one of the parsed size (never the option All), and the
    one text input named query holds the query parameter, or the empty
    string when there is none. *)
Theorem form_reflects_filter (r : SearchRoute) (db : Database) (c : Request) :
  let f := parseFilterInput
             (Input.mk (req_query c "size") (req_query c "query")) in
  exists m,
    markup (search_handler r db c) = [m]
    /\ selected_options m = [Some (Filter.size f)]
    /\ query_inputs m = [Some (or_empty (Filter.query f))].
Proof.
  intros f.
  assert (Hs : In (Filter.size f) sizes)
    by (destruct (parsed_size_cases
                    (Input.mk (req_query c "size") (req_query c "query")))
          as [E | [E | E]]; unfold f; rewrite E; simpl; tauto).
  destruct (FilterFields_selected (Filter.size f) (or_empty (Filter.query f)) Hs)
    as [Ho Hi].
  unfold selected_options, query_inputs in Ho, Hi.
  destruct r; cbn [search_handler].
  - unfold search_mpa. fold f. eexists. split; [reflexivity |].
    page_elements. split; [exact Ho | exact Hi].
  - unfold search_update_url_client_side. fold f.
    destruct (is_true_string _); eexists; (split; [reflexivity |]);
      page_elements; (split; [exact Ho | exact Hi]).
  - unfold search_server_patch. fold f.
    destruct (is_true_string _); eexists; (split; [reflexivity |]);
      page_elements; (split; [exact Ho | exact Hi]).
Qed.

(** X14. On the two routes that patch, the fragment streamed for a
    request with the datastar-request header is the [body] element of the
    page that the same path and parameters get without the header. *)
Theorem fragment_is_page_body (r : SearchRoute) (db : Database)
    (c1 c2 : Request) :
  r <> SearchMpa ->
  path c1 = path c2 -> queries c1 = queries c2 ->
  is_true_string (req_header c1 "datastar-request") = true ->
  is_true_string (req_header c2 "datastar-request") = false ->
  exists body rest document,
    search_handler r db c1 = SSE_stream (patchElements body :: rest)
    /\ search_handler r db c2 = c_html document
    /\ document_body document = Some body.
Proof.
  intros Hr Hp Hq H1 H2.
  destruct r; [now destruct Hr | |]; cbn [search_handler].
  - unfold search_update_url_client_side, req_query.
    rewrite H1, H2, Hq. do 3 eexists. repeat split.
  - unfold search_server_patch, req_query.
    rewrite H1, H2, Hq, Hp. do 3 eexists. repeat split.
Qed.

Lemma fragment_is_page_body_witness :
  exists body rest document,
    search_handler SearchServerPatch seeded
      (mkRequest "/search-server-patch" [("query", "tool")]
                 [("datastar-request", "true")])
    = SSE_stream (patchElements body :: rest)
    /\ search_handler SearchServerPatch seeded
         (mkRequest "/search-server-patch" [("query", "tool")] [])
       = c_html document
    /\ document_body document = Some body.
Proof.
  apply (fragment_is_page_body SearchServerPatch seeded
           (mkRequest "/search-server-patch" [("query", "tool")]
                      [("datastar-request", "true")])
           (mkRequest "/search-server-patch" [("query", "tool")] []));
    try reflexivity.
  discriminate.
Defined.

Lemma Products_hrefs (products : list Product.t) :
  product_hrefs (Products products)
  = map (fun p => Some ("/product/" ++ string_of_number (Product.id p)))
        products.
Proof.
  unfold product_hrefs, Products. simpl. rewrite app_nil_r.
  induction products as [|p ps IH]; [reflexivity |].
  simpl. now rewrite IH.
Qed.

Lemma product_hrefs_app (a b : list (option string * list jsx)) :
  map fst (filter (fun x => negb (is_bookmark x)) (a ++ b))
  = (map fst (filter (fun x => negb (is_bookmark x)) a)
     ++ map fst (filter (fun x => negb (is_bookmark x)) b))%list.
Proof. now rewrite filter_app, map_app. Qed.

Ltac page_anchors :=
  unfold product_hrefs;
  cbn [markup flat_map app anchors String.eqb Ascii.eqb Bool.eqb Root href_of];
  rewrite ?FilterFields_anchors, ?app_nil_r;
  cbn [app filter is_bookmark snd negb String.eqb Ascii.eqb Bool.eqb map].

(** X15. The links of the product list that a search route renders are,
    in order, /product/<id> for the records that the lookup returns for
    the parsed filter; the only other link is the bookmark link. *)
Theorem product_links (r : SearchRoute) (db : Database) (c : Request) :
  let f := parseFilterInput
             (Input.mk (req_query c "size") (req_query c "query")) in
  exists m,
    markup (search_handler r db c) = [m]
    /\ product_hrefs m
       = map (fun p => Some ("/product/" ++ string_of_number (Product.id p)))
             (getAllFilteredProducts db (Filter.query f) (Filter.size f)).
Proof.
  intros f.
  pose proof (Products_hrefs
                (getAllFilteredProducts db (Filter.query f) (Filter.size f)))
    as Hp.
  unfold product_hrefs in Hp.
  destruct r; cbn [search_handler].
  - unfold search_mpa. fold f. eexists. split; [reflexivity |].
    page_anchors. exact Hp.
  - unfold search_update_url_client_side. fold f.
    destruct (is_true_string _); eexists; (split; [reflexivity |]);
      page_anchors; exact Hp.
  - unfold search_server_patch. fold f.
    destruct (is_true_string _); eexists; (split; [reflexivity |]);
      page_anchors; exact Hp.
Qed.

(** ** The two revisions *)

(** X16. The pattern that the earlier parser computes is the one that
    [getAllFilteredProducts] builds, so /search-mpa answers with the same
    document in both revisions. *)
Theorem rev1_search_mpa_same_document (db : Database) (c : Request) :
  let input := Input.mk (req_query c "size") (req_query c "query") in
  filter_all db (Rev1.queryPattern (Rev1.parseFilterInput input))
             (Rev1.queryPattern (Rev1.parseFilterInput input))
             (Some (Rev1.size (Rev1.parseFilterInput input)))
  = getAllFilteredProducts db (Filter.query (parseFilterInput input))
                           (Filter.size (parseFilterInput input))
  /\ exists document,
       Rev1.search_mpa db c = Rev1.c_html [] document
       /\ search_mpa db c = c_html document.
Proof.
  split; [reflexivity |]. eexists. split; reflexivity.
Qed.

(** X17. /search-update-url-client-side answers a page request with the
    same document in both revisions; for a fragment request the earlier
    revision answers with the [body] element and the header
    datastar-merge-mode: morph_element, and the later one streams that
    same element as its one patch. *)
Theorem rev1_client_side_same_markup (db : Database) (c : Request) :
  if is_true_string (req_header c "datastar-request")
  then exists body,
         Rev1.search_update_url_client_side db c
         = Rev1.c_html [("datastar-merge-mode", "morph_element")] body
         /\ search_update_url_client_side db c = SSE_stream [patchElements body]
  else exists document,
         Rev1.search_update_url_client_side db c = Rev1.c_html [] document
         /\ search_update_url_client_side db c = c_html document.
Proof.
  unfold Rev1.search_update_url_client_side, search_update_url_client_side.
  destruct (is_true_string _); eexists; split; reflexivity.
Qed.

(** ** Links of the product list *)

Lemma string_of_number_inj (a b : Z) :
  string_of_number a = string_of_number b -> a = b.
Proof.
  unfold string_of_number. intros H.
  apply (f_equal NilEmpty.int_of_string) in H.
  rewrite !NilEmpty.isi in H. injection H as H.
  apply (f_equal Z.of_int) in H. now rewrite !DecimalZ.of_to in H.
Qed.

Lemma NoDup_map_filter {A B : Type} (g : A -> B) (f : A -> bool) (l : list A) :
  NoDup (map g l) -> NoDup (map g (filter f l)).
Proof.
  induction l as [|a l IH]; simpl; intros H; [constructor |].
  inversion H as [|? ? Hn Hl]; subst.
  destruct (f a); [| now apply IH].
  simpl. constructor; [| now apply IH].
  intros Hin. apply Hn. apply in_map_iff in Hin as [x [Hx Hf]].
  apply filter_In in Hf as [Hf _]. apply in_map_iff. now exists x.
Qed.

(** X18. On a table filled by insertions alone, the records that a
    lookup returns have pairwise distinct ids, and the product list
    rendered from them gives each record a link of its own. *)
Theorem product_links_distinct (l : list (string * string))
    (query : option string) (size : string) :
  NoDup (map Product.id
             (getAllFilteredProducts (inserts db_empty l) query size))
  /\ NoDup (product_hrefs
              (Products (getAllFilteredProducts (inserts db_empty l) query size))).
Proof.
  assert (H : NoDup (map Product.id
                       (getAllFilteredProducts (inserts db_empty l) query size))).
  { unfold getAllFilteredProducts, filter_all. apply NoDup_map_filter.
    rewrite inserts_ids. simpl.
    apply Finite.Injective_map_NoDup; [| apply seq_NoDup].
    intros a b Hab. lia. }
  split; [exact H |].
  rewrite Products_hrefs.
  rewrite <- (map_map Product.id
                (fun n => Some ("/product/" ++ string_of_number n))).
  apply Finite.Injective_map_NoDup; [| exact H].
  intros a b Hab. injection Hab as Hab.
  now apply string_of_number_inj.
Qed.
